(** * KuksaClient.hpp: the vehicle-signal broker client of dk-ivi-lite

    A shallow embedding of
    [src/platform/integrations/vehicle-api/KuksaClient.hpp].

    The header holds the public surface of the client, the bodies of its
    templates (typed getters, typed setters, the string conversion helper)
    and the default member initialisers of its private state.  The bodies
    of the other member functions live in the implementation file
    (KuksaClient.cpp): where a property needs one of them it is modelled
    from the specification and marked as such. *)

From Stdlib Require Import ZArith Ascii String.
From Stdlib Require DecimalString DecimalPos.
From stdpp Require Import base numbers strings list gmap.

Local Open Scope string_scope.
Local Open Scope Z_scope.

(** ** [std::istringstream]: formatted input

    The conversion helper is written against the standard library:
    [std::istringstream iss(str); iss >> out; !iss.fail() && iss.eof()].
    This module is the part of the C++ standard library it runs through:
    the stream state bits, the [sentry] of a formatted input function
    ([istream.formatted.reqmts]) and the extractors for [long], [int] and
    [std::string] in the classic locale with the default flags
    ([skipws | dec]). *)
Module IStream.

Record istringstream := Stream {
  rdbuf   : string;  (* the characters not yet read *)
  failbit : bool;
  eofbit  : bool;
  badbit  : bool
}.

(** [std::istringstream iss(str)] *)
Definition open (str : string) : istringstream := Stream str false false false.

Definition good (iss : istringstream) : bool :=
  negb (failbit iss || eofbit iss || badbit iss).
Definition fail (iss : istringstream) : bool := failbit iss || badbit iss.
Definition eof (iss : istringstream) : bool := eofbit iss.

(** [setstate(failbit)] and [setstate(eofbit)]: bits are only ever added. *)
Definition set_fail (iss : istringstream) : istringstream :=
  Stream (rdbuf iss) true (eofbit iss) (badbit iss).
Definition set_eof (iss : istringstream) : istringstream :=
  Stream (rdbuf iss) (failbit iss) true (badbit iss).
Definition with_rdbuf (s : string) (iss : istringstream) : istringstream :=
  Stream s (failbit iss) (eofbit iss) (badbit iss).

(** [std::isspace] in the classic locale: space, \t, \n, \v, \f, \r. *)
Definition isspace (c : ascii) : bool :=
  let n := N_of_ascii c in
  ((n =? 32) || ((9 <=? n) && (n <=? 13)))%N.

Definition isdigit (c : ascii) : bool :=
  let n := N_of_ascii c in ((48 <=? n) && (n <=? 57))%N.

Definition digit_value (c : ascii) : Z := Z.of_N (N_of_ascii c) - 48.

Fixpoint skipws (s : string) : string :=
  match s with
  | String c s' => if isspace c then skipws s' else s
  | EmptyString => EmptyString
  end.

(** [sentry(is, noskipws = false)]: on a good stream, leading white space
    is discarded; running into the end of the input sets
    [failbit | eofbit].  The sentry is true only when the stream is
    still good afterwards. *)
Definition sentry (iss : istringstream) : istringstream * bool :=
  if good iss then
    match skipws (rdbuf iss) with
    | EmptyString => (set_fail (set_eof (with_rdbuf EmptyString iss)), false)
    | rest => (with_rdbuf rest iss, true)
    end
  else (set_fail iss, false).

(** The type-specific part of an extractor, run once the sentry is true.
    It receives the old value of the destination and returns the new. *)
Class FormattedInput (T : Type) := obtain : istringstream → T → istringstream * T.

(** [iss >> out] for a formatted input function: the sentry first, and
    the requested input only if the sentry is true; otherwise the
    destination is left alone. *)
Definition extract {T} `{FormattedInput T} (iss : istringstream) (out : T)
  : istringstream * T :=
  let '(iss1, ok) := sentry iss in
  if ok then obtain iss1 out else (iss1, out).

(** *** Integers: [num_get::do_get], base 10 *)

(** Stage 2 accumulates an optional sign and then decimal digits. *)
Definition read_sign (s : string) : bool * string :=
  match s with
  | String "-" s' => (true, s')
  | String "+" s' => (false, s')
  | _ => (false, s)
  end.

(** The value of the leading digits, how many there were, and the rest. *)
Fixpoint read_digits (s : string) (acc : Z) (n : nat) : Z * nat * string :=
  match s with
  | String c s' =>
      if isdigit c then read_digits s' (10 * acc + digit_value c) (S n)
      else (acc, n, s)
  | EmptyString => (acc, n, EmptyString)
  end.

Definition at_end (s : string) : bool :=
  match s with EmptyString => true | _ => false end.

(** Stage 3 for a signed type with range [lo .. hi]: no digit at all
    stores 0 and sets [failbit]; a value out of range stores the nearest
    bound and sets [failbit]; having reached the end of the input sets
    [eofbit]. *)
Definition num_get_signed (lo hi : Z) (iss : istringstream) : istringstream * Z :=
  let '(neg, s1) := read_sign (rdbuf iss) in
  let '(v, n, s2) := read_digits s1 0 0 in
  let iss1 := with_rdbuf s2 iss in
  let iss2 := if at_end s2 then set_eof iss1 else iss1 in
  match n with
  | O => (set_fail iss2, 0)
  | S _ =>
      let v' := if neg then - v else v in
      if v' <? lo then (set_fail iss2, lo)
      else if hi <? v' then (set_fail iss2, hi)
      else (iss2, v')
  end.

Definition LONG_MIN : Z := - 2 ^ 63.
Definition LONG_MAX : Z := 2 ^ 63 - 1.
Definition INT_MIN : Z := - 2 ^ 31.
Definition INT_MAX : Z := 2 ^ 31 - 1.

(** [operator>>(long&)] *)
Definition obtain_long (iss : istringstream) (_ : Z) : istringstream * Z :=
  num_get_signed LONG_MIN LONG_MAX iss.

(** [operator>>(int&)]: the value is read as a [long] and narrowed; out
    of the range of [int] it stores the bound and sets [failbit]. *)
Definition obtain_int (iss : istringstream) (_ : Z) : istringstream * Z :=
  let '(iss1, l) := num_get_signed LONG_MIN LONG_MAX iss in
  if l <? INT_MIN then (set_fail iss1, INT_MIN)
  else if INT_MAX <? l then (set_fail iss1, INT_MAX)
  else (iss1, l).

(** *** [std::string]: one white-space delimited word *)
Fixpoint read_word (s : string) : string * string :=
  match s with
  | String c s' =>
      if isspace c then (EmptyString, s)
      else let '(w, r) := read_word s' in (String c w, r)
  | EmptyString => (EmptyString, EmptyString)
  end.

Definition obtain_string (iss : istringstream) (_ : string) : istringstream * string :=
  let '(w, r) := read_word (rdbuf iss) in
  let iss1 := with_rdbuf r iss in
  let iss2 := if at_end r then set_eof iss1 else iss1 in
  (if at_end w then set_fail iss2 else iss2, w).

(** *** Unsigned integers

    Stage 3 for an unsigned type with largest value [hi]: a magnitude
    above [hi] stores [hi] and sets [failbit]; otherwise a leading minus
    sign negates the value in the unsigned type, that is modulo
    [hi + 1]. *)
Definition num_get_unsigned (hi : Z) (iss : istringstream) : istringstream * Z :=
  let '(neg, s1) := read_sign (rdbuf iss) in
  let '(v, n, s2) := read_digits s1 0 0 in
  let iss1 := with_rdbuf s2 iss in
  let iss2 := if at_end s2 then set_eof iss1 else iss1 in
  match n with
  | O => (set_fail iss2, 0)
  | S _ =>
      if hi <? v then (set_fail iss2, hi)
      else (iss2, if neg then (hi + 1 - v) mod (hi + 1) else v)
  end.

Definition ULONG_MAX : Z := 2 ^ 64 - 1.

(** [operator>>(unsigned long&)] *)
Definition obtain_ulong (iss : istringstream) (_ : Z) : istringstream * Z :=
  num_get_unsigned ULONG_MAX iss.

(** *** [char]: the next character

    [operator>>(istream&, char&)]: after the sentry one character is
    taken from the buffer; only a missing character sets
    [failbit | eofbit]. *)
Definition obtain_char (iss : istringstream) (old : ascii) : istringstream * ascii :=
  match rdbuf iss with
  | String c rest => (with_rdbuf rest iss, c)
  | EmptyString => (set_fail (set_eof iss), old)
  end.

End IStream.

(** The C++ [int] is carried by [Z]; the extractor keeps it in range. *)
Definition int := Z.

#[export] Instance int_input : IStream.FormattedInput int := IStream.obtain_int.
#[export] Instance string_input : IStream.FormattedInput string := IStream.obtain_string.

(** Further types the template is instantiated at.  [long] and
    [unsigned long] (the 64-bit [int64_t] and [uint64_t]) are carried by
    [Z] as [int] is, so their extractors are named where they are used;
    [char] is [ascii]. *)
Definition long := Z.
Definition ulong := Z.

Definition long_input : IStream.FormattedInput long := IStream.obtain_long.
Definition ulong_input : IStream.FormattedInput ulong := IStream.obtain_ulong.
#[export] Instance char_input : IStream.FormattedInput ascii := IStream.obtain_char.

(** ** The client *)
Module KuksaClient.

(** *** Configuration structure *)
Record Config := {
  serverURI : string;
  debug : bool;
  signalPaths : list string
}.

(** *** Field types (for set operations) and get views *)
Inductive FieldType := FT_VALUE | FT_ACTUATOR_TARGET.

Definition FieldType_value (f : FieldType) : Z :=
  match f with
  | FT_VALUE => 1
  | FT_ACTUATOR_TARGET => 2
  end.

Inductive GetView := GV_CURRENT | GV_TARGET | GV_ALL.

Definition GetView_value (v : GetView) : Z :=
  match v with
  | GV_CURRENT => 0
  | GV_TARGET => 1
  | GV_ALL => 2
  end.

(** *** Conversion from string to a standard type

    The template [convertString]: [true] iff the extraction did not fail
    and consumed the whole string.  The second component is the
    out-parameter after the call.  The non-template overloads for
    [bool], [uint8_t], [uint16_t] and [uint32_t] are only declared in the
    header and are not part of this path. *)
Definition convertString {T} `{IStream.FormattedInput T} (str : string) (out : T)
  : bool * T :=
  let iss := IStream.open str in
  let '(iss', out') := IStream.extract iss out in
  (negb (IStream.fail iss') && IStream.eof iss', out').

Section Gateway.
(** The string getters and the set primitive talk to the broker; their
    bodies are in the implementation file.  They are parameters here:
    what the broker answers for a path, and what a set request does to
    the world. *)
Variable getCurrentValue : string → string.
Variable getTargetValue : string → string.
Context {World : Type}.
Variable setValueInternalImpl : ∀ T : Type, string → T → Z → World → World.

(** *** Conversion API *)
Definition getCurrentValueAs {T} `{IStream.FormattedInput T}
    (entryPath : string) (out : T) : bool * T :=
  let strVal := getCurrentValue entryPath in
  convertString strVal out.

Definition getTargetValueAs {T} `{IStream.FormattedInput T}
    (entryPath : string) (out : T) : bool * T :=
  let strVal := getTargetValue entryPath in
  convertString strVal out.

(** *** Set Value API *)
Definition setValueInternal {T} (entryPath : string) (newValue : T) (field : Z)
  : World → World :=
  setValueInternalImpl T entryPath newValue field.

Definition setCurrentValue {T} (entryPath : string) (newValue : T) : World → World :=
  setValueInternal entryPath newValue (FieldType_value FT_VALUE).

Definition setTargetValue {T} (entryPath : string) (newValue : T) : World → World :=
  setValueInternal entryPath newValue (FieldType_value FT_ACTUATOR_TARGET).
End Gateway.

(** *** The typed getters at the types with an overload of their own

    For [bool], [uint8_t], [uint16_t] and [uint32_t] the call
    [convertString(strVal, out)] in the typed getters resolves to the
    non-template overloads the header declares.  Their bodies are in the
    implementation file: they are a parameter here. *)
Inductive Overloaded := OvBool | OvUint8 | OvUint16 | OvUint32.

Definition overloaded_type (o : Overloaded) : Type :=
  match o with
  | OvBool => bool
  | OvUint8 | OvUint16 | OvUint32 => Z
  end.

Section Overloads.
Variable getCurrentValue : string → string.
Variable getTargetValue : string → string.
Variable convertString_overload :
  ∀ o : Overloaded, string → overloaded_type o → bool * overloaded_type o.

Definition getCurrentValueAs_overloaded (o : Overloaded)
    (entryPath : string) (out : overloaded_type o) : bool * overloaded_type o :=
  let strVal := getCurrentValue entryPath in
  convertString_overload o strVal out.

Definition getTargetValueAs_overloaded (o : Overloaded)
    (entryPath : string) (out : overloaded_type o) : bool * overloaded_type o :=
  let strVal := getTargetValue entryPath in
  convertString_overload o strVal out.
End Overloads.

(** *** Private members

    The data members of class [KuksaClient] (the record is [Client] here,
    the module has the name of the namespace).  Mutexes, the condition
    variable, the reconnect thread and the hidden implementation pointer
    carry no data of their own and are left out.  A subscription thread is
    represented by the key of the subscription it serves.  The header
    declares [activeSubscriptionPaths_] as a set of strings; the
    specification identifies a subscription by entry path and field kind,
    and the set holds these pairs here.

    The header declares the callback as a [std::function] over
    (path, value, field); it is an opaque value here. *)
Section Client.
Context {Callback : Type}.

Record SubscriptionInfo := {
  entryPath : string;
  callback : Callback;
  field : Z
}.

(** The key of a subscription: the entry path with the field kind. *)
Definition key_of (i : SubscriptionInfo) : string * Z := (entryPath i, field i).

Record Client := {
  serverURI_ : string;
  debug_ : bool;
  config_ : Config;
  signalPaths_ : list string;
  subscriptionThreads_ : list (string * Z);
  activeSubscriptionPaths_ : gset (string * Z);
  connected_ : bool;
  autoReconnect_ : bool;
  shouldStop_ : bool;
  activeSubscriptions_ : list SubscriptionInfo
}.

(** Modelled from the spec: the constructor [KuksaClient(const Config&)],
    whose body is in the implementation file.  The configuration is
    stored for the lifetime of the client, and its [signalPaths] are the
    paths of subscribe-all.  Every other member starts at the default
    member initialiser the header gives it: [connected_{false}],
    [autoReconnect_{true}], [shouldStop_{false}], empty containers. *)
Definition construct (config : Config) : Client := {|
  serverURI_ := serverURI config;
  debug_ := debug config;
  config_ := config;
  signalPaths_ := signalPaths config;
  subscriptionThreads_ := [];
  activeSubscriptionPaths_ := ∅;
  connected_ := false;
  autoReconnect_ := true;
  shouldStop_ := false;
  activeSubscriptions_ := []
|}.

(** Modelled from the spec: [setAutoReconnect(enabled)], whose body is
    in the implementation file: toggles whether channel failure
    triggers the reconnect supervisor automatically. *)
Definition setAutoReconnect (enabled : bool) (c : Client) : Client := {|
  serverURI_ := serverURI_ c;
  debug_ := debug_ c;
  config_ := config_ c;
  signalPaths_ := signalPaths_ c;
  subscriptionThreads_ := subscriptionThreads_ c;
  activeSubscriptionPaths_ := activeSubscriptionPaths_ c;
  connected_ := connected_ c;
  autoReconnect_ := enabled;
  shouldStop_ := shouldStop_ c;
  activeSubscriptions_ := activeSubscriptions_ c
|}.

(** The three members the subscription registry works on, replaced
    together; everything else is kept. *)
Definition with_registry (paths : gset (string * Z))
    (subs : list SubscriptionInfo) (threads : list (string * Z))
    (c : Client) : Client := {|
  serverURI_ := serverURI_ c;
  debug_ := debug_ c;
  config_ := config_ c;
  signalPaths_ := signalPaths_ c;
  subscriptionThreads_ := threads;
  activeSubscriptionPaths_ := paths;
  connected_ := connected_ c;
  autoReconnect_ := autoReconnect_ c;
  shouldStop_ := shouldStop_ c;
  activeSubscriptions_ := subs
|}.

(** *** Subscription registry *)

Inductive RegisterResult := AlreadyActive | NewlyRegistered.

(** Modelled from the spec: [register(key, callback)] of the
    subscription registry, the dedup step of the subscribe family
    (bodies in the implementation file): if the key is already present it
    returns already-active, spawns no duplicate worker and does not
    replace the existing callback; if absent it inserts the record and
    returns newly-registered.  The header keeps the set of active keys in
    [activeSubscriptionPaths_] (to prevent duplicates) and the records
    in [activeSubscriptions_]. *)
Definition register (k : string * Z) (cb : Callback) (c : Client)
  : RegisterResult * Client :=
  if decide (k ∈ activeSubscriptionPaths_ c) then (AlreadyActive, c)
  else
    (NewlyRegistered,
     with_registry ({[k]} ∪ activeSubscriptionPaths_ c)
       (activeSubscriptions_ c ++
          [{| entryPath := k.1; callback := cb; field := k.2 |}])
       (subscriptionThreads_ c) c).

(** Modelled from the spec: [subscribe(entryPath, userCallback, field)]:
    the registry dedupes and records the entry, then a subscription
    worker is spawned; a key that is already active spawns nothing. *)
Definition subscribe (path : string) (userCallback : Callback) (fld : Z)
    (c : Client) : Client :=
  match register (path, fld) userCallback c with
  | (AlreadyActive, c') => c'
  | (NewlyRegistered, c') =>
      with_registry (activeSubscriptionPaths_ c') (activeSubscriptions_ c')
        (subscriptionThreads_ c' ++ [(path, fld)]) c'
  end.

Definition subscribeCurrentValue (path : string) (userCallback : Callback)
  : Client → Client :=
  subscribe path userCallback (FieldType_value FT_VALUE).

Definition subscribeTargetValue (path : string) (userCallback : Callback)
  : Client → Client :=
  subscribe path userCallback (FieldType_value FT_ACTUATOR_TARGET).

(** Modelled from the spec: [unregister(key)]: removes the record if
    present, requests cancellation of its worker if running, and
    returns whether an entry was removed. *)
Definition unregister (k : string * Z) (c : Client) : bool * Client :=
  if decide (k ∈ activeSubscriptionPaths_ c) then
    (true,
     with_registry (activeSubscriptionPaths_ c ∖ {[k]})
       (filter (λ i, key_of i ≠ k) (activeSubscriptions_ c))
       (filter (λ w, w ≠ k) (subscriptionThreads_ c)) c)
  else (false, c).

(** Modelled from the spec: [subscribeAll(userCallback)]: one
    subscribe per entry of [signalPaths_], in order (the paths to
    auto-subscribe when subscribe-all is invoked; the header: each
    subscription runs in its own thread).  Neither says which field
    kind it subscribes with: [fld] stands for it. *)
Definition subscribeAll (fld : Z) (userCallback : Callback) (c : Client) : Client :=
  foldl (λ c' path, subscribe path userCallback fld c') c (signalPaths_ c).

(** The calls that change the registry, and a client's history. *)
Inductive Call :=
| CallSubscribe (path : string) (cb : Callback) (fld : Z)
| CallSubscribeAll (fld : Z) (cb : Callback)
| CallUnregister (k : string * Z)
| CallSetAutoReconnect (enabled : bool).

Definition call (c : Client) (op : Call) : Client :=
  match op with
  | CallSubscribe path cb fld => subscribe path cb fld c
  | CallSubscribeAll fld cb => subscribeAll fld cb c
  | CallUnregister k => (unregister k c).2
  | CallSetAutoReconnect enabled => setAutoReconnect enabled c
  end.

Definition run (config : Config) (ops : list Call) : Client :=
  foldl call (construct config) ops.

(** Observations on the registry. *)
Definition records_for (k : string * Z) (c : Client) : list SubscriptionInfo :=
  filter (λ i, key_of i = k) (activeSubscriptions_ c).

Definition workers_for (k : string * Z) (c : Client) : list (string * Z) :=
  filter (λ w, w = k) (subscriptionThreads_ c).

Definition callback_for (k : string * Z) (c : Client) : option Callback :=
  callback <$> head (records_for k c).
End Client.

Global Arguments SubscriptionInfo : clear implicits.
Global Arguments Client : clear implicits.
Global Arguments Call : clear implicits.

(** *** Connection state *)

Inductive ConnectionState := Disconnected | Connecting | Connected | Broken.

(** What can happen to the connection: the calls of the public surface,
    the outcome of an attempt to open the channel, a failure report from
    a gateway call or a worker, the supervisor's wake-up, shutdown. *)
Inductive ConnectionEvent :=
| EvConnect          (* connect() is called *)
| EvReconnect        (* reconnect() is called *)
| EvSupervisorWake   (* failure signal or retry timer *)
| EvOpenSucceeded    (* the attempt opened the channel *)
| EvOpenFailed       (* the attempt did not *)
| EvReportFailure    (* a channel-level error was observed *)
| EvShutdown.        (* explicit shutdown *)

(** Modelled from the spec: the connection manager and the reconnect
    supervisor, whose bodies ([connect], [reconnect],
    [attemptReconnection], [handleConnectionFailure], the destructor) are
    in the implementation file.
    - [connect()]: if the state is Disconnected or Broken, it attempts
      to open the channel; on success the state becomes Connected; on
      failure it is Broken if auto-reconnect is enabled and Disconnected
      if not.  The attempt itself is the state [Connecting].
    - [reconnect()]: forces an immediate reconnection attempt, the
      attempt [connect()] makes.
    - supervisor: on wake (failure signal or timer) while the state is
      Broken it attempts [connect()]; it acts when auto-reconnect is
      enabled.
    - failure report: Connected becomes Broken, once per failure
      episode; further reports are no-ops.
    - shutdown request: the state becomes Disconnected. *)
Definition transition (autoReconnect : bool) (s : ConnectionState)
    (e : ConnectionEvent) : ConnectionState :=
  match e, s with
  | EvConnect, (Disconnected | Broken) => Connecting
  | EvReconnect, (Disconnected | Broken) => Connecting
  | EvSupervisorWake, Broken => if autoReconnect then Connecting else Broken
  | EvOpenSucceeded, Connecting => Connected
  | EvOpenFailed, Connecting => if autoReconnect then Broken else Disconnected
  | EvReportFailure, Connected => Broken
  | EvShutdown, _ => Disconnected
  | _, _ => s
  end.

(** A history of the connection: each event comes with the value of the
    auto-reconnect flag at that moment.  A client starts [Disconnected]. *)
Definition connection_after (history : list (bool * ConnectionEvent))
  : ConnectionState :=
  foldl (λ s '(auto, e), transition auto s e) Disconnected history.

(** The edges the data model lists, without the one into
    [Disconnected]. *)
Definition listed_edge (s s' : ConnectionState) : bool :=
  match s, s' with
  | Disconnected, Connecting
  | Connecting, Connected
  | Connecting, Broken
  | Connected, Broken
  | Broken, Connecting => true
  | _, _ => false
  end.

End KuksaClient.

(** ** Vocabulary of the statements *)

Import KuksaClient.

(** A character that can occur in a decimal integer field: white space
    before it, a sign, a digit. *)
Definition is_sign (c : ascii) : bool :=
  match c with
  | "+"%char | "-"%char => true
  | _ => false
  end.

Definition numeric_char (c : ascii) : bool :=
  IStream.isspace c || is_sign c || IStream.isdigit c.

Fixpoint all_chars (P : ascii → bool) (s : string) : bool :=
  match s with
  | String c s' => P c && all_chars P s'
  | EmptyString => true
  end.

(** A string of white space only. *)
Definition blank (s : string) : bool := all_chars IStream.isspace s.

(** A string with no white space in it. *)
Definition spaceless (s : string) : bool :=
  all_chars (λ c, negb (IStream.isspace c)) s.

(** The decimal numeral of an integer: a minus sign for a negative one,
    then the digits without leading zeros; the numeral of zero is one
    zero digit. *)
Definition decimal (n : Z) : string :=
  DecimalString.NilZero.string_of_int (Z.to_int n).

(** The digits of a digit sequence, most significant first. *)
Definition digits (d : Decimal.uint) : string :=
  DecimalString.NilEmpty.string_of_uint d.

(** An optional sign in front of a numeral, and the value it gives to the
    magnitude [v]. *)
Inductive sign := NoSign | Plus | Minus.

Definition sign_string (sg : sign) : string :=
  match sg with
  | NoSign => ""
  | Plus => "+"
  | Minus => "-"
  end.

Definition signed (sg : sign) (v : Z) : Z :=
  match sg with
  | Minus => - v
  | _ => v
  end.

(** The nearest value within [lo .. hi]. *)
Definition clamp (lo hi v : Z) : Z := Z.max lo (Z.min hi v).

Definition in_range (lo hi v : Z) : bool := (lo <=? v) && (v <=? hi).

(** What follows a field of digits: the end of the string, or a character
    that is not a digit. *)
Definition ends_field (rest : string) : bool :=
  match rest with
  | String c _ => negb (IStream.isdigit c)
  | EmptyString => true
  end.

(** What follows a word: the end of the string, or white space. *)
Definition ends_word (rest : string) : bool :=
  match rest with
  | String c _ => IStream.isspace c
  | EmptyString => true
  end.

(** A field that cannot be a number: it starts with a sign that no digit
    follows, or with a character that is neither white space, sign nor
    digit. *)
Definition no_digit_field (s : string) : bool :=
  match s with
  | String c r => if is_sign c then ends_field r else negb (numeric_char c)
  | EmptyString => false
  end.

(** The value the auto-reconnect flag was last set to in a history of
    calls, [true] when it never was. *)
Definition last_setting {Callback} (ops : list (Call Callback)) : bool :=
  foldl (λ b op, match op with CallSetAutoReconnect enabled => enabled | _ => b end)
    true ops.

(** The subscription the supplied callback is registered under. *)
Definition subscription_of {Callback} (cb : Callback) (k : string * Z)
  : SubscriptionInfo Callback :=
  {| entryPath := k.1; callback := cb; field := k.2 |}.

(** The invariant of the registry: the set of active keys, the records and
    the worker threads name the same keys, each once. *)
Definition registry_ok {Callback} (c : Client Callback) : Prop :=
  NoDup (key_of <$> activeSubscriptions_ c) ∧
  NoDup (subscriptionThreads_ c) ∧
  (∀ k, k ∈ activeSubscriptionPaths_ c ↔ k ∈ key_of <$> activeSubscriptions_ c) ∧
  (∀ k, k ∈ activeSubscriptionPaths_ c ↔ k ∈ subscriptionThreads_ c).

(** The integer types the template is modelled at, with their extractor
    and range: [int], [long] and [unsigned long]. *)
Inductive Numeric := NumInt | NumLong | NumULong.

Definition numeric_input (k : Numeric) : IStream.FormattedInput Z :=
  match k with
  | NumInt => IStream.obtain_int
  | NumLong => IStream.obtain_long
  | NumULong => IStream.obtain_ulong
  end.

Definition numeric_min (k : Numeric) : Z :=
  match k with
  | NumInt => IStream.INT_MIN
  | NumLong => IStream.LONG_MIN
  | NumULong => 0
  end.

Definition numeric_max (k : Numeric) : Z :=
  match k with
  | NumInt => IStream.INT_MAX
  | NumLong => IStream.LONG_MAX
  | NumULong => IStream.ULONG_MAX
  end.

(** An extractor that reports end of file only once nothing is left to
    read, as the extractors of the standard library do. *)
Definition exhausting {T} (ob : IStream.FormattedInput T) : Prop :=
  ∀ iss out,
    IStream.eofbit iss = false →
    IStream.eofbit (ob iss out).1 = true →
    IStream.rdbuf (ob iss out).1 = "".

#[export] Instance sign_eq_dec : EqDecision sign.
Proof. solve_decision. Defined.

#[export] Instance ConnectionState_eq_dec : EqDecision ConnectionState.
Proof. solve_decision. Defined.

#[export] Instance ConnectionEvent_eq_dec : EqDecision ConnectionEvent.
Proof. solve_decision. Defined.

(** ** The conversion helper *)

(** The edges the data model lists, with the one into [Disconnected]
    that is open to every state. *)
Definition claimed_edge (s s' : ConnectionState) : bool :=
  listed_edge s s' || bool_decide (s' = Disconnected).

(** The states a connection goes through in a history, the first one
    included. *)
Fixpoint states_visited (s : ConnectionState)
    (history : list (bool * ConnectionEvent)) : list ConnectionState :=
  s :: match history with
       | [] => []
       | (auto, e) :: history' => states_visited (transition auto s e) history'
       end.

(** Every two states that follow each other are the same state or joined
    by a claimed edge. *)
Fixpoint edges_ok (visited : list ConnectionState) : bool :=
  match visited with
  | s :: (s' :: _) as rest =>
      (bool_decide (s' = s) || claimed_edge s s') && edges_ok rest
  | _ => true
  end.

(** One step of [read_digits] on a digit sequence that starts with a
    digit constructor. *)
Ltac read_digit d rest :=
  unfold digits;
  cbn [DecimalString.NilEmpty.string_of_uint Decimal.nb_digits];
  fold (digits d);
  match goal with
  | |- context [String ?c (digits d) +:+ rest] =>
      change (String c (digits d) +:+ rest) with (String c (digits d +:+ rest))
  end;
  cbn [IStream.read_digits];
  change (IStream.isdigit _) with true; cbv iota;
  rewrite Nat.add_succ_r.

(** Case analysis on every condition of the goal. *)
Ltac split_ifs :=
  repeat match goal with
         | |- context [if ?b then _ else _] => destruct b
         end.

Section Conversion.
Import IStream.

Lemma sentry_open_empty : sentry (open "") = (Stream "" true true false, false).
Proof. reflexivity. Qed.

(** On the empty string the sentry fails, whatever is being extracted:
    the flag is [false] and the destination is not written. *)
Lemma convertString_empty {T} `{FormattedInput T} (out : T) :
  convertString "" out = (false, out).
Proof. reflexivity. Qed.

(** White space, sign and digits are all the extractor for [int] ever
    consumes. *)
Lemma skipws_numeric s :
  all_chars numeric_char (skipws s) = all_chars numeric_char s.
Proof.
  induction s as [|c s IH]; [done|]. simpl.
  destruct (isspace c) eqn:Hc; [|done].
  rewrite IH. unfold numeric_char. by rewrite Hc.
Qed.

Lemma read_sign_numeric s :
  all_chars numeric_char (read_sign s).2 = all_chars numeric_char s.
Proof.
  destruct s as [|c s]; [done|].
  assert (Hs : is_sign c = true → numeric_char c = true).
  { unfold numeric_char. intros ->. by rewrite orb_true_r. }
  unfold read_sign.
  destruct c as [[] [] [] [] [] [] [] []]; try done; simpl; by rewrite Hs.
Qed.

Lemma read_digits_numeric s acc n :
  all_chars numeric_char (read_digits s acc n).2 = all_chars numeric_char s.
Proof.
  revert acc n. induction s as [|c s IH]; intros acc n; [done|]. simpl.
  destruct (isdigit c) eqn:Hc; [|done].
  rewrite IH. unfold numeric_char. rewrite Hc. by rewrite orb_true_r.
Qed.

(** Appending to a string that is not all white space, to its sign and
    to its digits. *)
Lemma skipws_app s x : skipws s ≠ "" → skipws (s +:+ x) = skipws s +:+ x.
Proof.
  induction s as [|c s IH]; [done|]. simpl.
  by destruct (isspace c).
Qed.

Lemma read_sign_app c s x :
  read_sign (String c s +:+ x)
  = ((read_sign (String c s)).1, (read_sign (String c s)).2 +:+ x).
Proof. by destruct c as [[] [] [] [] [] [] [] []]. Qed.

Lemma read_digits_app s acc n c t :
  isdigit c = false →
  (read_digits s acc n).2 = "" →
  read_digits (s +:+ String c t) acc n = ((read_digits s acc n).1, String c t).
Proof.
  intros Hc. revert acc n.
  induction s as [|d s IH]; intros acc n; simpl.
  - by rewrite Hc.
  - destruct (isdigit d); [apply IH | done].
Qed.

(** The same helper at [std::string]: one word is accepted, a second
    word is left unread and the conversion reports failure. *)
Lemma convertString_string_words (out : string) :
  convertString "Vehicle.Speed" out = (true, "Vehicle.Speed") ∧
  convertString "door open" out = (false, "door").
Proof. split; reflexivity. Qed.
End Conversion.

(** ** The typed getters *)

(** C2, as stated, does not hold: on the string abc the typed getter for
    [int] does not leave the out-parameter unchanged.  The extractor has
    passed its sentry when the conversion fails, and stores zero. *)
Lemma getCurrentValueAs_int_abc_writes_out :
  ¬ (∀ (getCurrentValue : string → string) (entryPath : string) (out : int),
       getCurrentValue entryPath = "abc" →
       getCurrentValueAs getCurrentValue entryPath out = (false, out)).
Proof.
  intros Hclaim.
  specialize (Hclaim (λ _, "abc") "Vehicle.Speed" 7 eq_refl).
  vm_compute in Hclaim. discriminate Hclaim.
Qed.

(** C2, amended: [getCurrentValueAs<int>] applied to the string value 42
    yields success with out-parameter 42; applied to abc it yields failure
    with the out-parameter set to 0; applied to 42x it yields failure (the
    trailing character is not consumed), with the out-parameter set to
    42. *)
Theorem getCurrentValueAs_int_examples
    (getCurrentValue : string → string) (entryPath : string) (out : int) :
  (getCurrentValue entryPath = "42" →
   getCurrentValueAs getCurrentValue entryPath out = (true, 42)) ∧
  (getCurrentValue entryPath = "abc" →
   getCurrentValueAs getCurrentValue entryPath out = (false, 0)) ∧
  (getCurrentValue entryPath = "42x" →
   getCurrentValueAs getCurrentValue entryPath out = (false, 42)).
Proof.
  unfold getCurrentValueAs.
  repeat split; intros ->; reflexivity.
Qed.

Lemma getCurrentValueAs_int_examples_witness :
  getCurrentValueAs (λ path, path) "42" (7 : int) = (true, 42) ∧
  getCurrentValueAs (λ path, path) "abc" (7 : int) = (false, 0) ∧
  getCurrentValueAs (λ path, path) "42x" (7 : int) = (false, 42).
Proof.
  split; [|split].
  - apply (getCurrentValueAs_int_examples (λ path, path) "42" 7). reflexivity.
  - apply (getCurrentValueAs_int_examples (λ path, path) "abc" 7). reflexivity.
  - apply (getCurrentValueAs_int_examples (λ path, path) "42x" 7). reflexivity.
Defined.

(** C10: for every type [T] that goes through the generic
    stream-extraction path, [getCurrentValueAs<T>] and
    [getTargetValueAs<T>] return [false] when the broker returns the empty
    string for the path; the out-parameter is not written. *)
Theorem typed_getters_reject_empty {T} `{IStream.FormattedInput T}
    (getValue : string → string) (entryPath : string) (out : T) :
  getValue entryPath = "" →
  getCurrentValueAs getValue entryPath out = (false, out) ∧
  getTargetValueAs getValue entryPath out = (false, out).
Proof.
  intros Hempty. unfold getCurrentValueAs, getTargetValueAs.
  rewrite Hempty. split; apply convertString_empty.
Qed.

Lemma typed_getters_reject_empty_witness :
  getCurrentValueAs (λ _, "") "Vehicle.Speed" (7 : int) = (false, 7) ∧
  getTargetValueAs (λ _, "") "Vehicle.Speed" (7 : int) = (false, 7).
Proof.
  apply (typed_getters_reject_empty (T := int) (λ _, "") "Vehicle.Speed" 7).
  reflexivity.
Defined.

(** ** The typed setters *)

(** C4: the field indicator encoding is Value = 1 and ActuatorTarget = 2;
    for every path and value [setCurrentValue] hands the set primitive the
    field kind 1 and [setTargetValue] the field kind 2, with the path and
    the value unchanged. *)
Theorem setters_carry_field_kind {World T : Type}
    (setValueInternalImpl : ∀ T : Type, string → T → Z → World → World)
    (entryPath : string) (newValue : T) (w : World) :
  FieldType_value FT_VALUE = 1 ∧
  FieldType_value FT_ACTUATOR_TARGET = 2 ∧
  setCurrentValue setValueInternalImpl entryPath newValue w
    = setValueInternalImpl T entryPath newValue 1 w ∧
  setTargetValue setValueInternalImpl entryPath newValue w
    = setValueInternalImpl T entryPath newValue 2 w.
Proof. repeat split. Qed.

(** ** The subscription registry *)

Section Registry.
Context {Callback : Type}.
Implicit Types (c : Client Callback) (k : string * Z) (cb : Callback).

Lemma subscribe_unfold path cb fld c :
  subscribe path cb fld c =
    if decide ((path, fld) ∈ activeSubscriptionPaths_ c) then c
    else with_registry ({[(path, fld)]} ∪ activeSubscriptionPaths_ c)
           (activeSubscriptions_ c ++ [subscription_of cb (path, fld)])
           (subscriptionThreads_ c ++ [(path, fld)]) c.
Proof. unfold subscribe, register. by case_decide. Qed.

(** In a list whose keys are pairwise distinct, a key selects one element
    or none. *)
Lemma count_by_key {A} (f : A → string * Z) (l : list A) k :
  NoDup (f <$> l) →
  length (filter (λ x, f x = k) l)
  = if decide (k ∈ f <$> l) then 1%nat else 0%nat.
Proof.
  induction l as [|x l IH]; [done|].
  rewrite fmap_cons, NoDup_cons. intros [Hx Hl].
  rewrite filter_cons, (decide_ext _ _ _ _ (elem_of_cons (f <$> l) k (f x))).
  specialize (IH Hl).
  destruct (decide (f x = k)) as [<-|Hne]; simpl.
  - rewrite IH. rewrite decide_False by done.
    rewrite decide_True; [done | by left].
  - rewrite IH. destruct (decide (k ∈ f <$> l)).
    + rewrite decide_True; [done | by right].
    + rewrite decide_False; [done | intros [?|?]; congruence].
Qed.

(** *** The invariant *)

Lemma construct_ok (config : Config) : registry_ok (construct (Callback := Callback) config).
Proof.
  unfold registry_ok. simpl. split_and!; [constructor | constructor | |].
  - intros k. rewrite elem_of_nil, elem_of_empty. tauto.
  - intros k. rewrite elem_of_nil, elem_of_empty. tauto.
Qed.

Lemma subscribe_ok path cb fld c :
  registry_ok c → registry_ok (subscribe path cb fld c).
Proof.
  intros (Hsubs & Hthreads & Hkeys & Hworkers).
  rewrite subscribe_unfold. case_decide as Hin; [done|].
  unfold registry_ok. simpl. split_and!.
  - rewrite fmap_app, NoDup_app. split_and!; [done | | apply NoDup_singleton].
    intros k Hk ->%list_elem_of_singleton. by apply Hin, Hkeys.
  - rewrite NoDup_app. split_and!; [done | | apply NoDup_singleton].
    intros k Hk ->%list_elem_of_singleton. by apply Hin, Hworkers.
  - intros k. rewrite fmap_app, elem_of_app, elem_of_union, Hkeys.
    rewrite elem_of_singleton. simpl. rewrite list_elem_of_singleton. tauto.
  - intros k. rewrite elem_of_app, elem_of_union, Hworkers.
    rewrite elem_of_singleton, list_elem_of_singleton. tauto.
Qed.

Lemma unregister_ok k c : registry_ok c → registry_ok (unregister k c).2.
Proof.
  intros (Hsubs & Hthreads & Hkeys & Hworkers).
  unfold unregister. case_decide as Hin; [|done].
  assert (Hfmap : ∀ k', k' ∈ key_of <$> filter (λ i, key_of i ≠ k) (activeSubscriptions_ c)
                        ↔ k' ≠ k ∧ k' ∈ key_of <$> activeSubscriptions_ c).
  { intros k'. rewrite !list_elem_of_fmap. split.
    - intros (i & -> & [Hne Hi]%list_elem_of_filter). eauto.
    - intros [Hne (i & -> & Hi)]. exists i. by rewrite list_elem_of_filter. }
  unfold registry_ok. simpl. split_and!.
  - eapply sublist_NoDup; [exact Hsubs|].
    apply fmap_sublist, sublist_filter.
  - by apply NoDup_filter.
  - intros k'. rewrite Hfmap, elem_of_difference, Hkeys, elem_of_singleton. tauto.
  - intros k'. rewrite list_elem_of_filter, elem_of_difference, Hworkers.
    rewrite elem_of_singleton. tauto.
Qed.

Lemma subscribe_each_ok fld cb (paths : list string) c :
  registry_ok c →
  registry_ok (foldl (λ c' path, subscribe path cb fld c') c paths).
Proof.
  revert c. induction paths as [|p paths IH]; intros c Hc; [done|].
  simpl. by apply IH, subscribe_ok.
Qed.

Lemma call_ok c (op : Call Callback) : registry_ok c → registry_ok (call c op).
Proof.
  destruct op; simpl.
  - apply subscribe_ok.
  - apply subscribe_each_ok.
  - apply unregister_ok.
  - done.
Qed.

Lemma run_ok (config : Config) (ops : list (Call Callback)) :
  registry_ok (run config ops).
Proof.
  unfold run. generalize (construct_ok config).
  generalize (construct (Callback := Callback) config).
  induction ops as [|op ops IH]; intros c Hc; [done|].
  simpl. by apply IH, call_ok.
Qed.

(** *** What the invariant gives: one record and one worker per active key *)

Lemma records_for_count k c :
  registry_ok c →
  length (records_for k c)
  = if decide (k ∈ activeSubscriptionPaths_ c) then 1%nat else 0%nat.
Proof.
  intros (Hsubs & _ & Hkeys & _). unfold records_for.
  rewrite count_by_key by done.
  apply decide_ext. by rewrite Hkeys.
Qed.

Lemma workers_for_count k c :
  registry_ok c →
  length (workers_for k c)
  = if decide (k ∈ activeSubscriptionPaths_ c) then 1%nat else 0%nat.
Proof.
  intros (_ & Hthreads & _ & Hworkers). unfold workers_for.
  rewrite (count_by_key id) by (by rewrite list_fmap_id).
  apply decide_ext. by rewrite list_fmap_id, Hworkers.
Qed.

Lemma workers_for_ok k c :
  registry_ok c →
  workers_for k c = if decide (k ∈ activeSubscriptionPaths_ c) then [k] else [].
Proof.
  intros Hc. pose proof (workers_for_count k c Hc) as Hlen.
  assert (Hall : ∀ w, w ∈ workers_for k c → w = k).
  { intros w [? _]%list_elem_of_filter. done. }
  destruct (workers_for k c) as [|w [|w' l]]; case_decide; try done.
  f_equal. apply Hall. by left.
Qed.

(** *** The registry calls leave the flags alone *)

Lemma subscribe_autoReconnect path cb fld c :
  autoReconnect_ (subscribe path cb fld c) = autoReconnect_ c.
Proof. rewrite subscribe_unfold. by case_decide. Qed.

Lemma subscribeAll_autoReconnect fld cb c :
  autoReconnect_ (subscribeAll fld cb c) = autoReconnect_ c.
Proof.
  unfold subscribeAll. generalize (signalPaths_ c) as paths. intros paths.
  revert c. induction paths as [|p paths IH]; intros c; [done|].
  simpl. by rewrite IH, subscribe_autoReconnect.
Qed.

Lemma unregister_autoReconnect k c :
  autoReconnect_ (unregister k c).2 = autoReconnect_ c.
Proof. unfold unregister. by case_decide. Qed.

Lemma calls_autoReconnect (ops : list (Call Callback)) c :
  autoReconnect_ (foldl call c ops)
  = foldl (λ b op, match op with
                   | CallSetAutoReconnect enabled => enabled
                   | _ => b
                   end) (autoReconnect_ c) ops.
Proof.
  revert c. induction ops as [|op ops IH]; intros c; [done|].
  simpl. rewrite IH. f_equal.
  destruct op; simpl;
    auto using subscribe_autoReconnect, subscribeAll_autoReconnect,
               unregister_autoReconnect.
Qed.

(** *** Subscribing a list of paths with one callback and one field kind *)

Lemma subscribe_paths path cb fld c k :
  k ∈ activeSubscriptionPaths_ (subscribe path cb fld c)
  ↔ k = (path, fld) ∨ k ∈ activeSubscriptionPaths_ c.
Proof.
  rewrite subscribe_unfold. case_decide as Hin; simpl.
  - split; [by right | by intros [->|?]].
  - by rewrite elem_of_union, elem_of_singleton.
Qed.

Lemma subscribe_each_paths fld cb (paths : list string) c k :
  k ∈ activeSubscriptionPaths_ (foldl (λ c' path, subscribe path cb fld c') c paths)
  ↔ k ∈ activeSubscriptionPaths_ c ∨ k ∈ (λ path, (path, fld)) <$> paths.
Proof.
  revert c. induction paths as [|p paths IH]; intros c; simpl.
  - rewrite elem_of_nil. tauto.
  - rewrite IH, subscribe_paths, elem_of_cons. tauto.
Qed.

Lemma subscribe_each_callbacks fld cb (paths : list string) c :
  Forall (λ i, callback i = cb) (activeSubscriptions_ c) →
  Forall (λ i, callback i = cb)
    (activeSubscriptions_ (foldl (λ c' path, subscribe path cb fld c') c paths)).
Proof.
  revert c. induction paths as [|p paths IH]; intros c Hc; [done|].
  simpl. apply IH. rewrite subscribe_unfold. case_decide; [done|].
  simpl. apply Forall_app. split; [done|]. by repeat constructor.
Qed.

(** After [subscribeAll] on a new client the active keys are those of the
    configured paths. *)
Lemma subscribeAll_paths fld cb (config : Config) k :
  k ∈ activeSubscriptionPaths_ (subscribeAll fld cb (construct config))
  ↔ k ∈ (λ path, (path, fld)) <$> signalPaths config.
Proof.
  unfold subscribeAll. rewrite subscribe_each_paths. simpl.
  rewrite elem_of_empty. tauto.
Qed.

Lemma subscribeAll_ok fld cb (config : Config) :
  registry_ok (subscribeAll fld cb (construct config)).
Proof. apply subscribe_each_ok, construct_ok. Qed.

(** The workers [subscribeAll] starts on a new client: as many as there
    are different paths in the configuration. *)
Lemma subscribeAll_worker_count fld cb (config : Config) :
  length (subscriptionThreads_ (subscribeAll fld cb (construct config)))
  = length (remove_dups (signalPaths config)).
Proof.
  destruct (subscribeAll_ok fld cb config) as (_ & Hthreads & _ & Hworkers).
  assert (Hinj : Inj (=) (=) (λ path : string, (path, fld))).
  { intros p q. congruence. }
  rewrite <- (length_fmap (λ path, (path, fld)) (remove_dups _)).
  apply Permutation_length, NoDup_Permutation; [done | |].
  - apply (NoDup_fmap_2 _), NoDup_remove_dups.
  - intros k. rewrite <- Hworkers, subscribeAll_paths.
    rewrite !list_elem_of_fmap. by setoid_rewrite elem_of_remove_dups.
Qed.

(** *** Calls leave the configured paths alone *)

Lemma calls_signalPaths (ops : list (Call Callback)) c :
  signalPaths_ (foldl call c ops) = signalPaths_ c.
Proof.
  revert c. induction ops as [|op ops IH]; intros c; [done|].
  simpl. rewrite IH. destruct op; simpl.
  - rewrite subscribe_unfold. by case_decide.
  - unfold subscribeAll. generalize (signalPaths_ c) at 1. intros paths.
    revert c. induction paths as [|p paths IHp]; intros c; [done|].
    simpl. rewrite IHp, subscribe_unfold. by case_decide.
  - unfold unregister. by case_decide.
  - done.
Qed.

(** *** Whose callback is on record *)

Lemma callback_for_inactive k c :
  registry_ok c → k ∉ activeSubscriptionPaths_ c → records_for k c = [].
Proof.
  intros Hc Hk. apply length_zero_iff_nil.
  rewrite records_for_count by done. by rewrite decide_False.
Qed.

Lemma subscribe_callback_for path cb fld c k :
  registry_ok c →
  callback_for k (subscribe path cb fld c)
  = if decide (k = (path, fld) ∧ k ∉ activeSubscriptionPaths_ c)
    then Some cb else callback_for k c.
Proof.
  intros Hc. rewrite subscribe_unfold.
  destruct (decide ((path, fld) ∈ activeSubscriptionPaths_ c)) as [Hin|Hin].
  - rewrite decide_False; [done|]. by intros [-> ?].
  - unfold callback_for, records_for. simpl. rewrite filter_app.
    destruct (decide (k = (path, fld))) as [->|Hne].
    + rewrite decide_True by done.
      pose proof (callback_for_inactive _ c Hc Hin) as Hnil.
      unfold records_for in Hnil. rewrite Hnil. simpl.
      rewrite filter_cons. by case_decide.
    + rewrite decide_False by (by intros [? _]).
      rewrite (filter_cons _ (subscription_of cb (path, fld))).
      case_decide as Heq; [by destruct Hne|].
      by rewrite filter_nil, app_nil_r.
Qed.

Lemma subscribe_each_callback_for fld cb (paths : list string) c k :
  registry_ok c →
  callback_for k (foldl (λ c' path, subscribe path cb fld c') c paths)
  = if decide (k ∈ (λ path, (path, fld)) <$> paths ∧ k ∉ activeSubscriptionPaths_ c)
    then Some cb else callback_for k c.
Proof.
  revert c. induction paths as [|p paths IH]; intros c Hc; cbn [foldl].
  - rewrite decide_False; [done|]. intros [Hk _]. by apply elem_of_nil in Hk.
  - rewrite fmap_cons, IH by (by apply subscribe_ok).
    rewrite subscribe_callback_for by done.
    pose proof (subscribe_paths p cb fld c k) as Hpaths.
    destruct (decide (k = (p, fld))) as [->|Hne];
      destruct (decide ((p, fld) ∈ activeSubscriptionPaths_ c)) as [Hin|Hin];
      repeat case_decide; try done;
      rewrite ?elem_of_cons in *; tauto.
Qed.
End Registry.

(** C1: at any time (after any history of registry calls on a new client)
    there is at most one subscription record and at most one worker for a
    key (entry path, field kind).  A second subscribe for the same key
    changes nothing: afterwards the key has exactly one record and exactly
    one worker, no second stream is spawned, and the callback on record is
    the one that was there first (the first subscriber's, if the key was
    new). *)
Theorem subscribe_twice_keeps_first {Callback : Type}
    (config : Config) (ops : list (Call Callback))
    (path : string) (fld : Z) (cb1 cb2 : Callback) :
  let c := run config ops in
  let k := (path, fld) in
  let c1 := subscribe path cb1 fld c in
  let c2 := subscribe path cb2 fld c1 in
  (length (records_for k c) ≤ 1)%nat ∧
  (length (workers_for k c) ≤ 1)%nat ∧
  c2 = c1 ∧
  length (records_for k c2) = 1%nat ∧
  length (workers_for k c2) = 1%nat ∧
  subscriptionThreads_ c2 = subscriptionThreads_ c1 ∧
  callback_for k c2 = Some (default cb1 (callback_for k c)).
Proof.
  intros c k c1 c2.
  pose proof (run_ok config ops) as Hc. fold c in Hc.
  pose proof (subscribe_ok path cb1 fld c Hc) as Hc1. fold c1 in Hc1.
  assert (Hin1 : k ∈ activeSubscriptionPaths_ c1).
  { unfold c1. rewrite subscribe_unfold. case_decide; [done|].
    simpl. apply elem_of_union_l. by apply elem_of_singleton. }
  assert (H21 : c2 = c1).
  { unfold c2. rewrite subscribe_unfold. by rewrite decide_True. }
  rewrite H21.
  rewrite (records_for_count k c), (workers_for_count k c) by done.
  rewrite (records_for_count k c1), (workers_for_count k c1) by done.
  rewrite !(decide_True (P := k ∈ activeSubscriptionPaths_ c1)) by done.
  split_and!; try done; try (case_decide; lia).
  pose proof (records_for_count k c Hc) as Hlen.
  unfold c1. rewrite subscribe_unfold. fold k.
  destruct (decide (k ∈ activeSubscriptionPaths_ c)) as [Hin|Hin].
  - unfold callback_for. by destruct (records_for k c).
  - unfold callback_for, records_for in *. simpl.
    rewrite filter_app.
    destruct (filter (λ i, key_of i = k) (activeSubscriptions_ c)); [|done].
    simpl. rewrite filter_cons, decide_True by done. done.
Qed.

(** C9: a newly constructed client has the auto-reconnect flag set; the
    flag stays as it is until [setAutoReconnect] is called (after any
    history of calls it holds what was last set, [true] if nothing was);
    and [setAutoReconnect] writes this flag and no other member. *)
Theorem autoReconnect_default_enabled {Callback : Type}
    (config : Config) (ops : list (Call Callback))
    (enabled : bool) (c : Client Callback) :
  autoReconnect_ (construct (Callback := Callback) config) = true ∧
  autoReconnect_ (run config ops) = last_setting ops ∧
  autoReconnect_ (setAutoReconnect enabled c) = enabled ∧
  connected_ (setAutoReconnect enabled c) = connected_ c ∧
  shouldStop_ (setAutoReconnect enabled c) = shouldStop_ c ∧
  serverURI_ (setAutoReconnect enabled c) = serverURI_ c ∧
  debug_ (setAutoReconnect enabled c) = debug_ c ∧
  config_ (setAutoReconnect enabled c) = config_ c ∧
  signalPaths_ (setAutoReconnect enabled c) = signalPaths_ c ∧
  subscriptionThreads_ (setAutoReconnect enabled c) = subscriptionThreads_ c ∧
  activeSubscriptionPaths_ (setAutoReconnect enabled c) = activeSubscriptionPaths_ c ∧
  activeSubscriptions_ (setAutoReconnect enabled c) = activeSubscriptions_ c.
Proof.
  split_and!; try done.
  unfold run. by rewrite calls_autoReconnect.
Qed.


(** ** The connection state *)

(** Every listed edge is taken by some event, and every state is reached. *)
Lemma listed_edges_occur :
  transition true Disconnected EvConnect = Connecting ∧
  transition true Connecting EvOpenSucceeded = Connected ∧
  transition true Connecting EvOpenFailed = Broken ∧
  transition true Connected EvReportFailure = Broken ∧
  transition true Broken EvSupervisorWake = Connecting ∧
  connection_after [(true, EvConnect); (true, EvOpenSucceeded)] = Connected ∧
  connection_after [(true, EvConnect); (true, EvOpenFailed)] = Broken.
Proof. repeat split. Qed.

(** A connection attempt that fails ends in Broken when auto-reconnect is
    enabled and in Disconnected when it is not. *)
Lemma failed_attempt_ends :
  transition true Connecting EvOpenFailed = Broken ∧
  transition false Connecting EvOpenFailed = Disconnected.
Proof. by split. Qed.

(** One event: the state stays, or moves along a claimed edge. *)
Lemma transition_claimed (auto : bool) (s : ConnectionState) (e : ConnectionEvent) :
  bool_decide (transition auto s e = s) || claimed_edge s (transition auto s e) = true.
Proof. by destruct s, e, auto. Qed.

Lemma states_visited_head s history :
  ∃ rest, states_visited s history = s :: rest.
Proof. destruct history as [|[auto e] history]; by eexists. Qed.

Lemma states_visited_edges s history : edges_ok (states_visited s history) = true.
Proof.
  revert s. induction history as [|[auto e] history IH]; intros s; [done|].
  cbn [states_visited].
  destruct (states_visited_head (transition auto s e) history) as (rest & Hrest).
  specialize (IH (transition auto s e)). rewrite Hrest in IH |- *.
  change (edges_ok (s :: transition auto s e :: rest))
    with ((bool_decide (transition auto s e = s)
           || claimed_edge s (transition auto s e))
          && edges_ok (transition auto s e :: rest)).
  by rewrite transition_claimed, IH.
Qed.

Lemma states_visited_last s history :
  last (states_visited s history)
  = Some (foldl (λ s '(auto, e), transition auto s e) s history).
Proof.
  revert s. induction history as [|[auto e] history IH]; intros s; [done|].
  cbn [states_visited foldl].
  destruct (states_visited_head (transition auto s e) history) as (rest & Hrest).
  specialize (IH (transition auto s e)). rewrite Hrest in IH |- *.
  by rewrite last_cons_cons.
Qed.


(** ** More on the conversion helper

    What [convertString] does with white space, with numerals and their
    bounds, with words and with single characters. *)

Section Fields.
Import IStream.

Lemma skipws_blank ws s : blank ws = true → skipws (ws +:+ s) = skipws s.
Proof.
  induction ws as [|c ws IH]; [done|]. unfold blank. simpl.
  intros [Hc Hws]%andb_true_iff. rewrite Hc. by apply IH.
Qed.

Lemma skipws_all_blank s : blank s = true → skipws s = "".
Proof.
  induction s as [|c s IH]; [done|]. unfold blank. simpl.
  intros [Hc Hs]%andb_true_iff. rewrite Hc. by apply IH.
Qed.

Lemma skipws_split s : ∃ ws, blank ws = true ∧ s = ws +:+ skipws s.
Proof.
  induction s as [|c s (ws & Hws & IH)]; [by exists ""|]. simpl.
  destruct (isspace c) eqn:Hc.
  - exists (String c ws). split; [unfold blank; simpl; by rewrite Hc|].
    by rewrite IH at 1.
  - by exists "".
Qed.

Lemma skipws_head c s : isspace c = false → skipws (String c s) = String c s.
Proof. simpl. by intros ->. Qed.

Lemma skipws_not_space s c r : skipws s = String c r → isspace c = false.
Proof.
  induction s as [|a s IH]; [done|]. simpl.
  destruct (isspace a) eqn:Ha; [done|]. by intros [= <- <-].
Qed.

(** A digit sequence that is not empty starts with a digit. *)
Lemma digits_head d :
  d ≠ Decimal.Nil → ∃ c r, digits d = String c r ∧ isdigit c = true.
Proof. destruct d; [done|..]; intros _; by eexists _, _. Qed.

Lemma read_digits_ends rest acc n :
  ends_field rest = true → read_digits rest acc n = (acc, n, rest).
Proof.
  destruct rest as [|c rest]; [done|]. simpl.
  by intros ->%negb_true_iff.
Qed.

(** Reading a digit sequence: the accumulator runs through the digits. *)
Lemma read_digits_acc d rest :
  ends_field rest = true →
  ∀ (p : positive) (z : Z) (n : nat),
    z = Z.pos p →
    read_digits (digits d +:+ rest) z n
    = (Z.pos (Pos.of_uint_acc d p), (n + Decimal.nb_digits d)%nat, rest).
Proof.
  intros Hrest. induction d; intros p z n ->;
    [ simpl; rewrite read_digits_ends by done; by rewrite Nat.add_0_r | .. ];
    read_digit d rest;
    apply (IHd _ _ (S n)); unfold digit_value; simpl; lia.
Qed.

Lemma read_digits_digits d rest n :
  ends_field rest = true →
  read_digits (digits d +:+ rest) 0 n
  = (Z.of_uint d, (n + Decimal.nb_digits d)%nat, rest).
Proof.
  intros Hrest. revert n. induction d; intros n;
    [ simpl; rewrite read_digits_ends by done; by rewrite Nat.add_0_r
    | read_digit d rest; apply (IHd (S n))
    | .. ];
    read_digit d rest;
    (etrans;
       [ eapply (read_digits_acc d rest Hrest);
         unfold digit_value; simpl; reflexivity
       | reflexivity ]).
Qed.

(** A digit character is the head of a digit sequence, and no sign. *)
Lemma isdigit_cases c :
  isdigit c = true →
  read_sign (String c "") = (false, String c "") ∧
  ∃ f : Decimal.uint → Decimal.uint,
    (∀ d, digits (f d) = String c (digits d)) ∧
    (∀ d, Decimal.nb_digits (f d) = S (Decimal.nb_digits d)).
Proof.
  destruct c as [[] [] [] [] [] [] [] []]; try discriminate; intros _;
    (split; [reflexivity|]);
    first [ by exists Decimal.D0 | by exists Decimal.D1 | by exists Decimal.D2
          | by exists Decimal.D3 | by exists Decimal.D4 | by exists Decimal.D5
          | by exists Decimal.D6 | by exists Decimal.D7 | by exists Decimal.D8
          | by exists Decimal.D9 ].
Qed.

Lemma read_sign_digit c r :
  isdigit c = true → read_sign (String c r) = (false, String c r).
Proof.
  intros [Hc _]%isdigit_cases. revert Hc. unfold read_sign.
  destruct c as [[] [] [] [] [] [] [] []]; done.
Qed.

(** What [read_digits] consumes is a digit sequence, and it stops at the
    end of the string or in front of a character that is no digit. *)
Lemma read_digits_inv s acc n :
  ∃ d, s = digits d +:+ (read_digits s acc n).2 ∧
       ends_field (read_digits s acc n).2 = true ∧
       (read_digits s acc n).1.2 = (n + Decimal.nb_digits d)%nat.
Proof.
  revert acc n. induction s as [|c s IH]; intros acc n.
  - exists Decimal.Nil. simpl. by rewrite Nat.add_0_r.
  - simpl. destruct (isdigit c) eqn:Hc.
    + destruct (IH (10 * acc + digit_value c) (S n)) as (d & Hs & Hend & Hn).
      destruct (isdigit_cases c Hc) as (_ & f & Hf & Hnb).
      exists (f d). rewrite Hf, Hnb, Hn. split_and!; [|done|lia].
      change (String c (digits d) +:+ ?r) with (String c (digits d +:+ r)).
      by f_equal.
    + exists Decimal.Nil. simpl. by rewrite Hc, Nat.add_0_r.
Qed.

Lemma read_sign_field sg x :
  ends_field x = false →
  read_sign (sign_string sg +:+ x) = (bool_decide (sg = Minus), x).
Proof.
  destruct x as [|c r]; [done|]. simpl. intros Hc%negb_false_iff.
  destruct sg; [by apply read_sign_digit | done | done].
Qed.

Lemma digits_not_end d rest :
  d ≠ Decimal.Nil → ends_field (digits d +:+ rest) = false.
Proof.
  intros (c & r & -> & Hc)%digits_head.
  change (String c r +:+ rest) with (String c (r +:+ rest)). simpl. by rewrite Hc.
Qed.

(** A sign and digits are no white space: the sentry stops in front of
    them. *)
Lemma skipws_field ws sg d rest :
  blank ws = true → d ≠ Decimal.Nil →
  ∃ c r, sign_string sg +:+ digits d +:+ rest = String c r ∧
         skipws (ws +:+ sign_string sg +:+ digits d +:+ rest) = String c r.
Proof.
  intros Hws (c & r & Hd & Hc)%digits_head.
  rewrite skipws_blank by done. rewrite Hd.
  assert (Hsp : isspace c = false).
  { revert Hc. by destruct c as [[] [] [] [] [] [] [] []]. }
  destruct sg.
  - exists c, (r +:+ rest). split; [done|]. by apply skipws_head.
  - by eexists _, _.
  - by eexists _, _.
Qed.

(** Extraction from a string that is not blank runs the extractor of the
    type on the string without its leading white space. *)
Lemma extract_open {T} (ob : FormattedInput T) s c r (out : T) :
  skipws s = String c r →
  extract (H := ob) (open s) out = ob (Stream (String c r) false false false) out.
Proof. unfold extract, sentry. simpl. by intros ->. Qed.

Lemma extract_open_blank {T} (ob : FormattedInput T) s (out : T) :
  skipws s = "" →
  extract (H := ob) (open s) out = (Stream "" true true false, out).
Proof. unfold extract, sentry. simpl. by intros ->. Qed.

(** Stage 2 and 3 on a field: optional sign, digits, and something that
    ends the field. *)
Lemma num_get_signed_field lo hi sg d rest :
  lo ≤ hi → d ≠ Decimal.Nil → ends_field rest = true →
  let v := signed sg (Z.of_uint d) in
  num_get_signed lo hi
    (Stream (sign_string sg +:+ digits d +:+ rest) false false false)
  = (Stream rest (negb (in_range lo hi v)) (at_end rest) false, clamp lo hi v).
Proof.
  intros Hlohi Hd Hrest v. unfold num_get_signed. cbn [rdbuf].
  rewrite read_sign_field by (by apply digits_not_end).
  rewrite read_digits_digits by done.
  destruct (Decimal.nb_digits d) as [|n] eqn:Hn; [by destruct d|].
  cbn [Nat.add]. unfold with_rdbuf, set_eof, set_fail, in_range, clamp. simpl.
  assert (Hv : (if bool_decide (sg = Minus) then - Z.of_uint d else Z.of_uint d) = v).
  { unfold v. by destruct sg. }
  rewrite Hv.
  destruct (Z.ltb_spec v lo), (Z.ltb_spec hi v), (Z.leb_spec lo v), (Z.leb_spec v hi);
    try lia; simpl; destruct (at_end rest); simpl; f_equal; lia.
Qed.

Lemma num_get_unsigned_field hi sg d rest :
  0 ≤ hi → d ≠ Decimal.Nil → ends_field rest = true →
  let v := Z.of_uint d in
  num_get_unsigned hi
    (Stream (sign_string sg +:+ digits d +:+ rest) false false false)
  = (Stream rest (hi <? v) (at_end rest) false,
     if hi <? v then hi
     else if bool_decide (sg = Minus) then (hi + 1 - v) mod (hi + 1) else v).
Proof.
  intros Hhi Hd Hrest v. unfold num_get_unsigned. cbn [rdbuf].
  rewrite read_sign_field by (by apply digits_not_end).
  rewrite read_digits_digits by done.
  destruct (Decimal.nb_digits d) as [|n] eqn:Hn; [by destruct d|].
  cbn [Nat.add]. unfold with_rdbuf, set_eof, set_fail. simpl. fold v.
  destruct (hi <? v), (at_end rest); reflexivity.
Qed.
End Fields.

Section ConversionProperties.
Import IStream.

Lemma string_app_empty_r (s : string) : s +:+ "" = s.
Proof.
  induction s as [|c s IH]; [done|].
  change (String c s +:+ "") with (String c (s +:+ "")). by rewrite IH.
Qed.

(** [operator>>(int&)] on a field. *)
Lemma obtain_int_field sg d rest (out : int) :
  d ≠ Decimal.Nil → ends_field rest = true →
  let v := signed sg (Z.of_uint d) in
  obtain_int (Stream (sign_string sg +:+ digits d +:+ rest) false false false) out
  = (Stream rest (negb (in_range INT_MIN INT_MAX v)) (at_end rest) false,
     clamp INT_MIN INT_MAX v).
Proof.
  intros Hd Hrest v. unfold obtain_int.
  rewrite (num_get_signed_field LONG_MIN LONG_MAX) by done. fold v.
  unfold set_fail, in_range, clamp, LONG_MIN, LONG_MAX, INT_MIN, INT_MAX.
  cbn [rdbuf failbit eofbit badbit].
  destruct (Z.ltb_spec (Z.max (- 2 ^ 63) (Z.min (2 ^ 63 - 1) v)) (- 2 ^ 31)),
           (Z.ltb_spec (2 ^ 31 - 1) (Z.max (- 2 ^ 63) (Z.min (2 ^ 63 - 1) v))),
           (Z.leb_spec (- 2 ^ 63) v), (Z.leb_spec v (2 ^ 63 - 1)),
           (Z.leb_spec (- 2 ^ 31) v), (Z.leb_spec v (2 ^ 31 - 1));
    try lia; simpl; f_equal; lia.
Qed.

(** X1: white space in front of the string makes no difference to the
    conversion, whatever the type. *)
Theorem convertString_leading_blank {T} `{FormattedInput T}
    (ws s : string) (out : T) :
  blank ws = true →
  convertString (ws +:+ s) out = convertString s out.
Proof.
  intros Hws. unfold convertString, extract, sentry. simpl.
  rewrite skipws_blank by done. by destruct (skipws s).
Qed.

Lemma convertString_leading_blank_witness :
  convertString "  42" (7 : int) = convertString "42" (7 : int).
Proof. apply (convertString_leading_blank "  " "42" (7 : int)). reflexivity. Defined.

(** X2: a string of white space only is rejected, whatever the type, and
    the out-parameter keeps its value. *)
Theorem convertString_blank {T} `{FormattedInput T} (s : string) (out : T) :
  blank s = true →
  convertString s out = (false, out).
Proof.
  intros Hs. unfold convertString.
  by rewrite extract_open_blank by (by apply skipws_all_blank).
Qed.

Lemma convertString_blank_witness :
  convertString "   " (7 : int) = (false, 7).
Proof. apply (convertString_blank "   " (7 : int)). reflexivity. Defined.

(** [convertString<int>] on white space, an optional sign, digits, and a
    rest that does not go on with a digit: the flag tells that there is no
    rest and that the number is within the range of [int]; the
    out-parameter holds the number, or the bound of [int] it lies
    beyond. *)
Lemma convertString_int_on_field (ws rest : string) (sg : sign) (d : Decimal.uint)
    (out : int) :
  blank ws = true → d ≠ Decimal.Nil → ends_field rest = true →
  let v := signed sg (Z.of_uint d) in
  convertString (ws +:+ sign_string sg +:+ digits d +:+ rest) out
  = (at_end rest && in_range INT_MIN INT_MAX v, clamp INT_MIN INT_MAX v).
Proof.
  intros Hws Hd Hrest v. unfold convertString.
  destruct (skipws_field ws sg d rest Hws Hd) as (c & r & Hfield & Hskip).
  rewrite (extract_open _ _ c r) by done. rewrite <- Hfield.
  unfold int_input. rewrite obtain_int_field by done. fold v.
  unfold fail, eof. cbn [failbit eofbit badbit].
  by destruct (in_range INT_MIN INT_MAX v), (at_end rest).
Qed.

(** X3: when a number is followed by anything that is not a digit,
    [convertString<int>] reports failure and still writes the
    out-parameter: it holds the number read so far (or the bound of [int]
    the number lies beyond), not its old value. *)
Theorem convertString_int_stops_at_rest
    (ws : string) (sg : sign) (d : Decimal.uint) (c : ascii) (rest : string)
    (out : int) :
  blank ws = true → d ≠ Decimal.Nil → isdigit c = false →
  convertString (ws +:+ sign_string sg +:+ digits d +:+ String c rest) out
  = (false, clamp INT_MIN INT_MAX (signed sg (Z.of_uint d))).
Proof.
  intros Hws Hd Hc.
  rewrite convertString_int_on_field; [done..|].
  simpl. by rewrite Hc.
Qed.

Lemma convertString_int_stops_at_rest_witness :
  convertString " -17 rpm" (0 : int) = (false, -17).
Proof.
  apply (convertString_int_stops_at_rest " " Minus
           (Decimal.D1 (Decimal.D7 Decimal.Nil)) " " "rpm" 0);
    [reflexivity | discriminate | reflexivity].
Defined.

(** The sign [read_sign] takes off. *)
Lemma read_sign_inv s :
  ∃ sg, s = sign_string sg +:+ (read_sign s).2 ∧
        (read_sign s).1 = bool_decide (sg = Minus).
Proof.
  destruct s as [|c r]; [by exists NoSign|].
  destruct (is_sign c) eqn:Hc.
  - revert Hc. destruct c as [[] [] [] [] [] [] [] []]; try done; intros _;
      [by exists Plus | by exists Minus].
  - exists NoSign. revert Hc.
    by destruct c as [[] [] [] [] [] [] [] []].
Qed.

(** Without a digit after the optional sign the conversion fails and zero
    is stored. *)
Lemma obtain_int_no_digit s (out : int) :
  (read_digits (read_sign s).2 0 0).1.2 = 0%nat →
  ∃ iss', obtain_int (Stream s false false false) out = (iss', 0) ∧ fail iss' = true.
Proof.
  unfold obtain_int, num_get_signed. cbn [rdbuf].
  destruct (read_sign s) as [neg s2]. cbn [snd].
  destruct (read_digits s2 0 0) as [[v n] s3]. cbn [fst snd]. intros ->.
  change (0 <? INT_MIN) with false. change (INT_MAX <? 0) with false.
  cbv iota. eexists. split; [reflexivity|]. by destruct (at_end s3).
Qed.

(** X4: [convertString<int>] accepts exactly the strings made of optional
    white space, an optional sign and one or more digits whose signed
    value lies within the range of [int]; the out-parameter then holds
    that value. *)
Theorem convertString_int_accepts (s : string) (out v : int) :
  convertString s out = (true, v) ↔
  ∃ ws sg d,
    s = ws +:+ sign_string sg +:+ digits d ∧
    blank ws = true ∧ d ≠ Decimal.Nil ∧
    v = signed sg (Z.of_uint d) ∧ INT_MIN ≤ v ≤ INT_MAX.
Proof.
  split.
  - intros Hconv.
    destruct (skipws_split s) as (ws & Hws & Hs).
    destruct (skipws s) as [|c s1] eqn:Hskip.
    { unfold convertString in Hconv.
      by rewrite extract_open_blank in Hconv by done. }
    destruct (read_sign_inv (String c s1)) as (sg & Hsg & _).
    destruct (read_digits_inv (read_sign (String c s1)).2 0 0) as (d & Hd & Hend & Hn).
    assert (d = Decimal.Nil ∨ d ≠ Decimal.Nil) as [->|Hnil]
      by (destruct d; (by left) || (by right)).
    { unfold convertString in Hconv.
      rewrite (extract_open _ _ c s1) in Hconv by done.
      destruct (obtain_int_no_digit (String c s1) out Hn) as (iss' & Hob & Hfail).
      unfold int_input in Hconv. rewrite Hob, Hfail in Hconv. done. }
    set (r := (read_digits (read_sign (String c s1)).2 0 0).2) in *.
    assert (Hfield : s = ws +:+ sign_string sg +:+ digits d +:+ r).
    { by rewrite Hs, Hsg, <- Hd. }
    rewrite Hfield, convertString_int_on_field in Hconv by done.
    injection Hconv as Hflag Hv.
    apply andb_true_iff in Hflag as [Hr Hrange].
    destruct r; [|done]. rewrite string_app_empty_r in Hfield.
    exists ws, sg, d. unfold in_range, clamp in *.
    apply andb_true_iff in Hrange as [?%Z.leb_le ?%Z.leb_le].
    split_and!; [done..| lia | lia | lia].
  - intros (ws & sg & d & -> & Hws & Hd & -> & Hlo & Hhi).
    pose proof (convertString_int_on_field ws "" sg d out Hws Hd eq_refl) as Hfield.
    rewrite string_app_empty_r in Hfield. rewrite Hfield.
    unfold in_range, clamp. simpl.
    rewrite (proj2 (Z.leb_le _ _) Hlo), (proj2 (Z.leb_le _ _) Hhi).
    f_equal. lia.
Qed.

(** The numeral of an integer is a sign and digits. *)
Lemma decimal_field n :
  ∃ sg d, decimal n = sign_string sg +:+ digits d ∧ d ≠ Decimal.Nil ∧
          signed sg (Z.of_uint d) = n ∧
          sg = (if n <? 0 then Minus else NoSign) ∧ Z.of_uint d = Z.abs n.
Proof.
  destruct n as [|p|p].
  - by exists NoSign, (Decimal.D0 Decimal.Nil).
  - exists NoSign, (Pos.to_uint p).
    pose proof (DecimalPos.Unsigned.to_uint_nonnil p) as Hnil.
    pose proof (DecimalPos.Unsigned.of_to p) as Hof.
    unfold decimal, Z.to_int, signed, Z.of_uint. rewrite Hof.
    split_and!; [|done..]. simpl. by destruct (Pos.to_uint p).
  - exists Minus, (Pos.to_uint p).
    pose proof (DecimalPos.Unsigned.to_uint_nonnil p) as Hnil.
    pose proof (DecimalPos.Unsigned.of_to p) as Hof.
    unfold decimal, Z.to_int, signed, Z.of_uint. rewrite Hof.
    split_and!; [|done..]. simpl. by destruct (Pos.to_uint p).
Qed.

Lemma convertString_int_decimal (n : Z) (out : int) :
  convertString (decimal n) out
  = (in_range INT_MIN INT_MAX n, clamp INT_MIN INT_MAX n).
Proof.
  destruct (decimal_field n) as (sg & d & -> & Hd & <- & _).
  pose proof (convertString_int_on_field "" "" sg d out eq_refl Hd eq_refl) as Hfield.
  rewrite string_app_empty_r in Hfield. exact Hfield.
Qed.

(** X5: every value of [int], written as a decimal numeral, converts back
    to itself. *)
Theorem convertString_int_round_trip (n : Z) (out : int) :
  INT_MIN ≤ n ≤ INT_MAX →
  convertString (decimal n) out = (true, n).
Proof.
  intros [Hlo Hhi]. rewrite convertString_int_decimal.
  unfold in_range, clamp.
  rewrite (proj2 (Z.leb_le _ _) Hlo), (proj2 (Z.leb_le _ _) Hhi).
  simpl. f_equal. lia.
Qed.

Lemma convertString_int_round_trip_witness :
  convertString (decimal (-2147483648)) (7 : int) = (true, -2147483648).
Proof.
  apply (convertString_int_round_trip (-2147483648) 7).
  unfold INT_MIN, INT_MAX. lia.
Defined.

(** X6: the numeral of an integer beyond the range of [int] is rejected,
    and the out-parameter is set to the bound it lies beyond: [INT_MAX]
    above, [INT_MIN] below. *)
Theorem convertString_int_saturates (n : Z) (out : int) :
  n < INT_MIN ∨ INT_MAX < n →
  convertString (decimal n) out
  = (false, if n <? INT_MIN then INT_MIN else INT_MAX).
Proof.
  intros Hn. rewrite convertString_int_decimal.
  unfold in_range, clamp, INT_MIN, INT_MAX in *.
  destruct (Z.leb_spec (- 2 ^ 31) n), (Z.leb_spec n (2 ^ 31 - 1)),
           (Z.ltb_spec n (- 2 ^ 31)); try lia; simpl; f_equal; lia.
Qed.

Lemma convertString_int_saturates_witness :
  convertString (decimal 2147483648) (7 : int) = (false, 2147483647).
Proof.
  apply (convertString_int_saturates 2147483648 7).
  right. unfold INT_MAX. lia.
Defined.

(** X7: a string whose first character after the white space is a sign
    with no digit behind it, or is neither sign nor digit, is rejected by
    [convertString<int>], and the out-parameter is set to zero. *)
Theorem convertString_int_no_digit (ws s : string) (out : int) :
  blank ws = true → no_digit_field s = true →
  convertString (ws +:+ s) out = (false, 0).
Proof.
  intros Hws Hs.
  destruct s as [|c r]; [done|]. simpl in Hs.
  assert (Hsp : isspace c = false).
  { revert Hs. unfold numeric_char.
    destruct (is_sign c) eqn:Hc; [|by destruct (isspace c)].
    revert Hc. by destruct c as [[] [] [] [] [] [] [] []]. }
  unfold convertString.
  rewrite (extract_open _ _ c r)
    by (by rewrite skipws_blank by done; apply skipws_head).
  assert (Hn : (read_digits (read_sign (String c r)).2 0 0).1.2 = 0%nat).
  { destruct (is_sign c) eqn:Hc.
    - assert (Hr : read_sign (String c r) = (bool_decide (c = "-"%char), r)).
      { revert Hc. by destruct c as [[] [] [] [] [] [] [] []]. }
      rewrite Hr. cbn [snd]. by rewrite read_digits_ends.
    - assert (Hr : read_sign (String c r) = (false, String c r)).
      { revert Hc. by destruct c as [[] [] [] [] [] [] [] []]. }
      rewrite Hr. cbn [snd]. rewrite read_digits_ends; [done|].
      simpl. revert Hs. unfold numeric_char.
      destruct (isdigit c); [|done]. by rewrite orb_true_r. }
  destruct (obtain_int_no_digit (String c r) out Hn) as (iss' & Hob & Hfail).
  unfold int_input. by rewrite Hob, Hfail.
Qed.

Lemma convertString_int_no_digit_witness :
  convertString " -x1" (7 : int) = (false, 0) ∧
  convertString "true" (7 : int) = (false, 0).
Proof.
  split.
  - apply (convertString_int_no_digit " " "-x1" 7); reflexivity.
  - apply (convertString_int_no_digit "" "true" 7); reflexivity.
Defined.
(** The three ways [convertString<int>] can go: a blank string, a field
    without a digit, a field with digits. *)
Lemma convertString_int_cases (s : string) (out : int) :
  convertString s out = (false, out) ∨
  convertString s out = (false, 0) ∨
  ∃ ws sg d rest,
    blank ws = true ∧ d ≠ Decimal.Nil ∧ ends_field rest = true ∧
    s = ws +:+ sign_string sg +:+ digits d +:+ rest.
Proof.
  destruct (skipws_split s) as (ws & Hws & Hs).
  destruct (skipws s) as [|c s1] eqn:Hskip.
  { left. unfold convertString. by rewrite extract_open_blank. }
  right.
  destruct (read_sign_inv (String c s1)) as (sg & Hsg & _).
  destruct (read_digits_inv (read_sign (String c s1)).2 0 0) as (d & Hd & Hend & Hn).
  assert (d = Decimal.Nil ∨ d ≠ Decimal.Nil) as [->|Hnil]
    by (destruct d; (by left) || (by right)).
  - left. unfold convertString. rewrite (extract_open _ _ c s1) by done.
    destruct (obtain_int_no_digit (String c s1) out Hn) as (iss' & Hob & Hfail).
    unfold int_input. by rewrite Hob, Hfail.
  - right. set (r := (read_digits (read_sign (String c s1)).2 0 0).2) in *.
    exists ws, sg, d, r.
    split_and!; [done..|]. by rewrite Hs, Hsg, <- Hd.
Qed.

(** X8: [convertString<int>] never leaves a value outside the range of
    [int] in the out-parameter: if it was in range before the call, it is
    in range after it, whatever the string. *)
Theorem convertString_int_in_range (s : string) (out : int) :
  INT_MIN ≤ out ≤ INT_MAX →
  INT_MIN ≤ (convertString s out).2 ≤ INT_MAX.
Proof.
  intros Hout.
  destruct (convertString_int_cases s out)
    as [-> | [-> | (ws & sg & d & rest & Hws & Hd & Hrest & ->)]].
  - done.
  - unfold INT_MIN, INT_MAX. simpl. lia.
  - rewrite convertString_int_on_field by done.
    unfold clamp, INT_MIN, INT_MAX. simpl. lia.
Qed.

Lemma convertString_int_in_range_witness :
  INT_MIN ≤ (convertString "99999999999999999999" (7 : int)).2 ≤ INT_MAX.
Proof.
  apply (convertString_int_in_range "99999999999999999999" 7).
  unfold INT_MIN, INT_MAX. lia.
Defined.

(** *** Words *)

Lemma read_word_word w rest :
  spaceless w = true → ends_word rest = true →
  read_word (w +:+ rest) = (w, rest).
Proof.
  intros Hw Hrest. induction w as [|c w IH].
  - destruct rest as [|c rest]; [done|]. simpl in *. by rewrite Hrest.
  - unfold spaceless in Hw. simpl in Hw.
    apply andb_true_iff in Hw as [Hc%negb_true_iff Hw].
    change (String c w +:+ rest) with (String c (w +:+ rest)).
    simpl. rewrite Hc, IH by done. done.
Qed.

Lemma read_word_inv s :
  s = (read_word s).1 +:+ (read_word s).2 ∧
  spaceless (read_word s).1 = true ∧ ends_word (read_word s).2 = true.
Proof.
  induction s as [|c s (IH1 & IH2 & IH3)]; [done|]. simpl.
  destruct (isspace c) eqn:Hc.
  - simpl. by rewrite Hc.
  - destruct (read_word s) as [w r]. simpl in *.
    unfold spaceless. simpl. rewrite Hc. split_and!; [|done..].
    change (String c w +:+ r) with (String c (w +:+ r)). by f_equal.
Qed.

(** [operator>>(std::string&)] on a word and what follows it. *)
Lemma obtain_string_word w rest (out : string) :
  w ≠ "" → spaceless w = true → ends_word rest = true →
  obtain_string (Stream (w +:+ rest) false false false) out
  = (Stream rest false (at_end rest) false, w).
Proof.
  intros Hne Hw Hrest. unfold obtain_string. cbn [rdbuf].
  rewrite read_word_word by done.
  destruct w; [done|]. by destruct rest.
Qed.

Lemma skipws_word ws w rest :
  blank ws = true → w ≠ "" → spaceless w = true →
  ∃ c r, w +:+ rest = String c r ∧ skipws (ws +:+ w +:+ rest) = String c r.
Proof.
  intros Hws Hne Hw. destruct w as [|c w]; [done|].
  unfold spaceless in Hw. simpl in Hw.
  apply andb_true_iff in Hw as [Hc%negb_true_iff _].
  exists c, (w +:+ rest). split; [done|].
  rewrite skipws_blank by done. by apply skipws_head.
Qed.

(** X9: [convertString<std::string>] accepts exactly the strings made of
    optional white space and one word (no white space after it or in it);
    the out-parameter then holds the word. *)
Theorem convertString_string_accepts (s out w : string) :
  convertString s out = (true, w) ↔
  ∃ ws, s = ws +:+ w ∧ blank ws = true ∧ w ≠ "" ∧ spaceless w = true.
Proof.
  split.
  - intros Hconv. destruct (skipws_split s) as (ws & Hws & Hs).
    unfold convertString in Hconv.
    destruct (skipws s) as [|c s1] eqn:Hskip.
    { by rewrite extract_open_blank in Hconv by done. }
    rewrite (extract_open _ _ c s1) in Hconv by done.
    unfold string_input, obtain_string in Hconv. cbn [rdbuf] in Hconv.
    destruct (read_word_inv (String c s1)) as (Hsplit & Hw & _).
    destruct (read_word (String c s1)) as [w' r]. cbn [fst snd] in *.
    destruct r as [|cr r]; [|by destruct w'].
    rewrite string_app_empty_r in Hsplit. subst w'.
    injection Hconv as <-.
    exists ws. by rewrite Hs.
  - intros (ws & -> & Hws & Hne & Hw).
    destruct (skipws_word ws w "" Hws Hne Hw) as (c & r & Hfield & Hskip).
    rewrite string_app_empty_r in Hfield, Hskip.
    unfold convertString. rewrite (extract_open _ _ c r) by done.
    rewrite <- Hfield. unfold string_input.
    pose proof (obtain_string_word w "" out Hne Hw eq_refl) as Hob.
    rewrite string_app_empty_r in Hob. by rewrite Hob.
Qed.

(** X10: when white space follows the first word, [convertString<std::string>]
    reports failure, and the out-parameter holds that first word. *)
Theorem convertString_string_first_word (ws w : string) (c : ascii) (rest out : string) :
  blank ws = true → w ≠ "" → spaceless w = true → isspace c = true →
  convertString (ws +:+ w +:+ String c rest) out = (false, w).
Proof.
  intros Hws Hne Hw Hc.
  destruct (skipws_word ws w (String c rest) Hws Hne Hw) as (c' & r & Hfield & Hskip).
  unfold convertString. rewrite (extract_open _ _ c' r) by done.
  rewrite <- Hfield. unfold string_input.
  by rewrite obtain_string_word.
Qed.

Lemma convertString_string_first_word_witness :
  convertString " door open" "closed" = (false, "door").
Proof.
  apply (convertString_string_first_word " " "door" " " "open" "closed");
    [reflexivity | discriminate | reflexivity | reflexivity].
Defined.

(** *** Single characters *)

(** X11: [convertString<char>] never succeeds: after the one character it
    takes, the stream has not run into the end of the string, so the
    end-of-file test of the helper fails; on a blank string the
    extraction itself fails. *)
Theorem convertString_char_never (s : string) (out : ascii) :
  (convertString s out).1 = false.
Proof.
  unfold convertString, extract, sentry. simpl.
  destruct (skipws s) as [|c r]; [done|].
  unfold char_input, obtain_char. by simpl.
Qed.
(** *** 64-bit integers *)

(** Extraction from the numeral of an integer starts at its first
    character. *)
Lemma extract_decimal {T} (ob : FormattedInput T) (n : Z) (out : T) :
  ∃ sg d,
    d ≠ Decimal.Nil ∧ signed sg (Z.of_uint d) = n ∧
    sg = (if n <? 0 then Minus else NoSign) ∧ Z.of_uint d = Z.abs n ∧
    extract (H := ob) (open (decimal n)) out
    = ob (Stream (sign_string sg +:+ digits d +:+ "") false false false) out.
Proof.
  destruct (decimal_field n) as (sg & d & Hdec & Hd & Hv & Hsg & Habs).
  exists sg, d. split_and!; [done..|].
  destruct (skipws_field "" sg d "" eq_refl Hd) as (c & r & Hfield & Hskip).
  rewrite Hfield. apply extract_open.
  rewrite string_app_empty_r in Hskip. rewrite Hdec. exact Hskip.
Qed.

(** X12: [convertString<long>] (the 64-bit [int64_t]) on the decimal
    numeral of an integer [n]: the flag tells whether [n] lies within
    [LONG_MIN .. LONG_MAX], and the out-parameter holds [n], or the bound
    it lies beyond. *)
Theorem convertString_long_decimal (n : Z) (out : long) :
  convertString (H := long_input) (decimal n) out
  = (in_range LONG_MIN LONG_MAX n, clamp LONG_MIN LONG_MAX n).
Proof.
  unfold convertString.
  destruct (extract_decimal long_input n out) as (sg & d & Hd & Hv & _ & _ & ->).
  unfold long_input, obtain_long.
  rewrite num_get_signed_field by done. rewrite Hv.
  unfold fail, eof. cbn [failbit eofbit badbit at_end].
  by destruct (in_range LONG_MIN LONG_MAX n).
Qed.

(** X13: [convertString<unsigned long>] (the 64-bit [uint64_t]) on the
    numeral of a non-negative integer [n]: it succeeds with [n] up to
    [ULONG_MAX], and beyond it fails and stores [ULONG_MAX]. *)
Theorem convertString_ulong_decimal (n : Z) (out : ulong) :
  0 ≤ n →
  convertString (H := ulong_input) (decimal n) out
  = (n <=? ULONG_MAX, Z.min ULONG_MAX n).
Proof.
  intros Hn. unfold convertString.
  destruct (extract_decimal ulong_input n out) as (sg & d & Hd & _ & Hsg & Habs & ->).
  unfold ulong_input, obtain_ulong.
  rewrite num_get_unsigned_field by done.
  rewrite Habs, Z.abs_eq by done.
  assert ((n <? 0) = false) as Hneg by lia. rewrite Hneg in Hsg. subst sg.
  unfold fail, eof. cbn [failbit eofbit badbit at_end].
  destruct (Z.ltb_spec ULONG_MAX n), (Z.leb_spec n ULONG_MAX);
    try lia; simpl; f_equal; lia.
Qed.

Lemma convertString_ulong_decimal_witness :
  convertString (H := ulong_input) (decimal 18446744073709551615) (7 : ulong)
  = (true, 18446744073709551615).
Proof.
  apply (convertString_ulong_decimal 18446744073709551615 7). lia.
Defined.

(** X14: [convertString<unsigned long>] accepts the numeral of a negative
    integer down to [- ULONG_MAX] and reports success: the out-parameter
    holds the value wrapped around, [2 ^ 64 + n]. *)
Theorem convertString_ulong_negative_wraps (n : Z) (out : ulong) :
  - ULONG_MAX ≤ n < 0 →
  convertString (H := ulong_input) (decimal n) out = (true, 2 ^ 64 + n).
Proof.
  intros Hn. unfold convertString.
  destruct (extract_decimal ulong_input n out) as (sg & d & Hd & _ & Hsg & Habs & ->).
  unfold ulong_input, obtain_ulong.
  rewrite num_get_unsigned_field by done.
  rewrite Habs, Z.abs_neq by lia.
  assert ((n <? 0) = true) as Hneg by lia. rewrite Hneg in Hsg. subst sg.
  unfold fail, eof, ULONG_MAX in *. cbn [failbit eofbit badbit at_end].
  destruct (Z.ltb_spec (2 ^ 64 - 1) (- n)); [lia|].
  simpl. f_equal. rewrite Z.mod_small by lia. lia.
Qed.

Lemma convertString_ulong_negative_wraps_witness :
  convertString (H := ulong_input) (decimal (-1)) (7 : ulong)
  = (true, 18446744073709551615).
Proof.
  apply (convertString_ulong_negative_wraps (-1) 7).
  unfold ULONG_MAX. lia.
Defined.
End ConversionProperties.

(** ** The typed getters at every type *)

Section EveryType.
Import IStream.

(** The modelled extractors report end of file only at the end of the
    input. *)
Lemma numeric_exhausting (k : Numeric) : exhausting (numeric_input k).
Proof.
  intros [buf fb eb bb] out Heof. simpl in Heof. subst eb.
  destruct k; unfold numeric_input, obtain_int, obtain_long, obtain_ulong,
    num_get_signed, num_get_unsigned; cbn [rdbuf];
    destruct (read_sign buf) as [neg s2];
    destruct (read_digits s2 0 0) as [[v n] s3];
    (destruct s3 as [|c3 s3]; cbn [at_end]; destruct n; split_ifs; done).
Qed.

Lemma string_exhausting : exhausting string_input.
Proof.
  intros [buf fb eb bb] out Heof. simpl in Heof. subst eb.
  unfold string_input, obtain_string. cbn [rdbuf].
  destruct (read_word buf) as [w r].
  destruct r as [|c r]; cbn [at_end]; by destruct (at_end w).
Qed.

Lemma char_exhausting : exhausting char_input.
Proof.
  intros [buf fb eb bb] out Heof. simpl in Heof. subst eb.
  unfold char_input, obtain_char. cbn [rdbuf]. by destruct buf.
Qed.

(** With such an extractor, end of file after [iss >> out] on a new
    stream means that the whole string was read. *)
Lemma extract_exhausting {T} (ob : FormattedInput T) (s : string) (out : T) :
  exhausting ob →
  eof (extract (H := ob) (open s) out).1 = true →
  rdbuf (extract (H := ob) (open s) out).1 = "".
Proof.
  intros Hob. unfold extract, sentry. simpl.
  destruct (skipws s) as [|c r]; [done|].
  by apply Hob.
Qed.

(** The end-of-file bit after extracting a number from a new stream tells
    that the whole string was white space, sign and digits. *)
Lemma extract_numeric_eof (k : Numeric) (s : string) (out : Z) :
  eof (extract (H := numeric_input k) (open s) out).1 = true →
  all_chars numeric_char s = true.
Proof.
  unfold extract, sentry. simpl.
  rewrite <- (skipws_numeric s).
  destruct (skipws s) as [|c s1] eqn:Hs; [done|].
  destruct k; unfold obtain, numeric_input, obtain_int, obtain_long, obtain_ulong,
    num_get_signed, num_get_unsigned;
    cbn [with_rdbuf rdbuf open failbit eofbit badbit];
    rewrite <- (read_sign_numeric (String c s1));
    destruct (read_sign (String c s1)) as [neg s2]; cbn [snd];
    rewrite <- (read_digits_numeric s2 0 0);
    destruct (read_digits s2 0 0) as [[v n] s3]; cbn [snd];
    (destruct s3 as [|c3 s3]; [done|]); cbn [at_end];
    (destruct n; [done|]); split_ifs; done.
Qed.

(** A string accepted as a number is no longer accepted once a character
    that is not a digit is put after it. *)
Lemma convertString_numeric_trailing (k : Numeric) s c t (out out' : Z) :
  (convertString (H := numeric_input k) s out).1 = true →
  isdigit c = false →
  (convertString (H := numeric_input k) (s +:+ String c t) out').1 = false.
Proof.
  unfold convertString, extract, sentry. simpl. intros Hs Hc.
  destruct (skipws s) as [|c1 s1] eqn:Hws; [done|].
  rewrite skipws_app, Hws by (by rewrite Hws).
  revert Hs.
  change (String c1 s1 +:+ String c t) with (String c1 (s1 +:+ String c t)).
  cbv beta iota.
  change (String c1 (s1 +:+ String c t)) with (String c1 s1 +:+ String c t).
  destruct k; unfold obtain, numeric_input, obtain_int, obtain_long, obtain_ulong,
    num_get_signed, num_get_unsigned;
    cbn [with_rdbuf rdbuf open failbit eofbit badbit];
    rewrite read_sign_app;
    destruct (read_sign (String c1 s1)) as [neg s2]; cbn [fst snd];
    destruct (read_digits s2 0 0) as [[v n] s3] eqn:Hd;
    (destruct s3 as [|c3 s3];
     [ rewrite (read_digits_app s2 0 0 c t Hc) by (by rewrite Hd);
       rewrite Hd; cbn [fst at_end]; intros _;
       (destruct n; [done|]);
       split_ifs; simpl; by rewrite ?andb_false_r
     | cbn [at_end]; (destruct n; [done|]);
       split_ifs; simpl; by rewrite ?andb_false_r ]).
Qed.

(** The numeral of a value of the type converts to that value. *)
Lemma convertString_numeric_decimal (k : Numeric) (n out : Z) :
  numeric_min k ≤ n ≤ numeric_max k →
  convertString (H := numeric_input k) (decimal n) out = (true, n).
Proof.
  intros [Hlo Hhi]. unfold convertString.
  destruct (extract_decimal (numeric_input k) n out)
    as (sg & d & Hd & Hv & Hsg & Habs & ->).
  destruct k; unfold obtain, numeric_input, numeric_min, numeric_max in *.
  - rewrite obtain_int_field by done. rewrite Hv.
    unfold in_range, clamp, fail, eof. cbn [failbit eofbit badbit at_end].
    rewrite (proj2 (Z.leb_le _ _) Hlo), (proj2 (Z.leb_le _ _) Hhi).
    simpl. f_equal. lia.
  - unfold obtain_long. rewrite num_get_signed_field by done. rewrite Hv.
    unfold in_range, clamp, fail, eof. cbn [failbit eofbit badbit at_end].
    rewrite (proj2 (Z.leb_le _ _) Hlo), (proj2 (Z.leb_le _ _) Hhi).
    simpl. f_equal. lia.
  - unfold obtain_ulong. rewrite num_get_unsigned_field by done.
    rewrite Habs, Z.abs_eq by done.
    assert ((n <? 0) = false) as Hneg by lia. rewrite Hneg in Hsg. subst sg.
    unfold fail, eof. cbn [failbit eofbit badbit at_end].
    destruct (Z.ltb_spec ULONG_MAX n); [lia|]. done.
Qed.
End EveryType.


